(** * whatsapp-cloudflare-agent: the conversation actor and its dispatcher

    A shallow embedding of
    - [src/durable-objects/conversation.ts] (class [ConversationDurableObject]),
    - [src/services/whatsapp.ts] ([sendTextMessage], [markMessageAsRead]),
    - [src/worker.ts] (the [GET /webhook] and [POST /webhook] handlers),
    - [src/types.ts] (the payload and message types),
    followed by the properties of the bounded history and of the failure
    paths of [processMessage]. *)

From Stdlib Require Import ZArith.
From stdpp Require Import gmap strings list fin_maps.

Open Scope string_scope.
Open Scope list_scope.
Open Scope nat_scope.

(** ** Data model ([types.ts]) *)

Inductive MessageRole := user | assistant | system.

(** A JS [Date]: a time value in milliseconds since the epoch, or the
    invalid date (time value NaN). *)
Inductive Date := InvalidDate | DateMs (ms : Z).

Record Message := {
  role : MessageRole;
  content : string;
  timestamp : Date;
}.

Record WhatsAppContact := {
  wa_id : string;
  profile : option string;          (* profile?: { name } *)
}.

Inductive MessageType := text | audio | image | video.

Record WhatsAppMessage := {
  wm_id : string;
  wm_from : string;
  wm_timestamp : string;
  wm_type : MessageType;
  wm_text : option string;          (* text?: { body } *)
}.

Record Metadata := {
  display_phone_number : string;
  phone_number_id : string;
}.

(** The webhook body is unvalidated JSON: every field that the code
    reaches through [?.] may be absent. *)
Record WebhookValue := {
  messaging_product : string;
  metadata : Metadata;
  contacts : option (list WhatsAppContact);
  messages : option (list WhatsAppMessage);
}.

Record WebhookChange := { value : option WebhookValue }.
Record WebhookEntry := { changes : option (list WebhookChange) }.
Record WhatsAppWebhookPayload := { entry : option (list WebhookEntry) }.

(** The [{ role, content }] pairs handed to the text generator. *)
Record CoreMessage := {
  core_role : MessageRole;
  core_content : string;
}.

(** The value [processMessage] resolves to. *)
Record ProcessResult := {
  success : bool;
  error : option string;
  response : option string;
}.

#[global] Instance MessageRole_eq_dec : EqDecision MessageRole.
Proof. solve_decision. Defined.
#[global] Instance Date_eq_dec : EqDecision Date.
Proof. solve_decision. Defined.
#[global] Instance Message_eq_dec : EqDecision Message.
Proof. solve_decision. Defined.
#[global] Instance MessageType_eq_dec : EqDecision MessageType.
Proof. solve_decision. Defined.

(** ** JavaScript values *)

(** [!s] is false exactly for the non-empty strings. *)
Definition truthy (s : string) : bool :=
  match s with
  | EmptyString => false
  | String _ _ => true
  end.

(** [xs?.[0]] on a possibly absent array. *)
Definition first {A} (xs : option (list A)) : option A :=
  match xs with
  | Some (x :: _) => Some x
  | _ => None
  end.

(** [!xs] for a possibly absent array: an array, even an empty one, is
    truthy. *)
Definition present {A} (xs : option A) : bool :=
  match xs with
  | Some _ => true
  | None => false
  end.

(** [xs.slice(-k)]: the start index is [max(length - k, 0)]. *)
Definition slice_last {A} (k : nat) (xs : list A) : list A :=
  drop (length xs - k) xs.

(** [new Date(n)] for [n] an integer or NaN ([None]): the time value is
    clipped to the range of 8.64e15 ms around the epoch. *)
Definition newDate (n : option Z) : Date :=
  match n with
  | Some ms => if (Z.abs ms <=? 8640000000000000)%Z then DateMs ms else InvalidDate
  | None => InvalidDate
  end.

(** ** The outside world

    What the runtime and the remote services answer.  Each of them is
    asked at most once during one [processMessage]. *)

Inductive FetchResult :=
  | NetworkError (msg : string)               (* [fetch] rejects *)
  | HttpResponse (ok : bool) (body : string).

Inductive GenerateResult :=
  | GenerateThrows (msg : string)
  | GenerateText (generated : string).        (* [result.text] *)

Record Platform := {
  (** [parseInt(s)]: [None] stands for NaN *)
  parseInt : string → option Z;
  (** [new Date()] when the assistant message is built *)
  now : Date;
  (** the provider's answer to a read receipt for a message id *)
  fetchReceipt : string → bool → FetchResult;
  (** the provider's answer to a text send (recipient, body) *)
  fetchSend : string → string → FetchResult;
  (** the model's answer to (system prompt, messages) *)
  generateText : string → list CoreMessage → GenerateResult;
}.

(** The calls that leave the actor, in the order they are made. *)
Inductive Call :=
  | CallMarkRead (message_id : string) (typing : bool)
  | CallSendText (message recipient : string)
  | CallGenerate (system_prompt : string) (msgs : list CoreMessage).

(** ** The actor's effects

    One Durable Object: its key-value storage ([this.ctx.storage], which
    hands out and takes copies of the stored values) and the log of the
    outbound calls made so far. *)

Record Actor := {
  storage : gmap string (list Message);
  calls : list Call;
}.

(** How an awaited computation ends: with a value, or with a thrown
    [Error] of which the [message] is kept. *)
Inductive Completion (A : Type) :=
  | Normal (a : A)
  | Throws (msg : string).
Arguments Normal {A} a.
Arguments Throws {A} msg.

Definition Async (A : Type) : Type := Actor → Completion A * Actor.

Definition ret {A} (a : A) : Async A := λ s, (Normal a, s).

Definition throw {A} (msg : string) : Async A := λ s, (Throws msg, s).

Definition bind {A B} (c : Async A) (k : A → Async B) : Async B :=
  λ s, match c s with
       | (Normal a, s') => k a s'
       | (Throws msg, s') => (Throws msg, s')
       end.

(** [try { c } catch (error) { h error.message }] *)
Definition try_catch {A} (c : Async A) (h : string → Async A) : Async A :=
  λ s, match c s with
       | (Normal a, s') => (Normal a, s')
       | (Throws msg, s') => h msg s'
       end.

Notation "x <- c1 ;; c2" := (bind c1 (λ x, c2))
  (at level 100, c1 at next level, right associativity).
Notation "c1 ;; c2" := (bind c1 (λ _, c2))
  (at level 100, right associativity).

Definition storage_get (key : string) : Async (option (list Message)) :=
  λ s, (Normal (storage s !! key), s).

Definition storage_put (key : string) (v : list Message) : Async unit :=
  λ s, (Normal tt, {| storage := <[key := v]> (storage s); calls := calls s |}).

Definition storage_delete (key : string) : Async unit :=
  λ s, (Normal tt, {| storage := delete key (storage s); calls := calls s |}).

Definition call (c : Call) : Async unit :=
  λ s, (Normal tt, {| storage := storage s; calls := calls s ++ [c] |}).

(** The persisted history of a storage: what [getHistory] reads. *)
Definition stored_history (st : gmap string (list Message)) : list Message :=
  default [] (st !! "messages").

Section Actor.

Variable P : Platform.

(** ** [services/whatsapp.ts] *)

Definition sendTextMessage (message recipient : string) : Async unit :=
  call (CallSendText message recipient) ;;
  match fetchSend P recipient message with
  | NetworkError msg => throw msg
  | HttpResponse ok body =>
      if negb ok then throw ("Failed to send WhatsApp message: " +:+ body)
      else ret tt
  end.

Definition markMessageAsRead (messageId : string) (showTyping : bool) : Async unit :=
  call (CallMarkRead messageId showTyping) ;;
  match fetchReceipt P messageId showTyping with
  | NetworkError msg => throw msg
  | HttpResponse ok body => ret tt      (* a refusal is only logged *)
  end.

(** ** [durable-objects/conversation.ts] *)

Definition SYSTEM_PROMPT : string :=
  "You are a helpful AI assistant communicating via WhatsApp.
Be friendly, concise, and helpful. Keep your responses conversational and not too long.".

Definition MAX_MESSAGES : nat := 20.

Definition generateResponse (messages : list Message) : Async string :=
  try_catch
    (let coreMessages :=
       map (λ msg, {| core_role := role msg; core_content := content msg |}) messages in
     call (CallGenerate SYSTEM_PROMPT coreMessages) ;;
     match generateText P SYSTEM_PROMPT coreMessages with
     | GenerateThrows msg => throw msg
     | GenerateText generated =>
         ret (if truthy generated then generated
              else "I'm sorry, I couldn't generate a response.")
     end)
    (λ _, ret "I apologize, but I encountered an error. Please try again.").

Definition getHistory : Async (list Message) :=
  history <- storage_get "messages" ;;
  ret (default [] history).

Definition addMessage (message : Message) : Async unit :=
  history <- getHistory ;;
  let history := history ++ [message] in
  let trimmedHistory :=
    if (MAX_MESSAGES <? length history)%nat   (* history.length > MAX_MESSAGES *)
    then slice_last MAX_MESSAGES history
    else history in
  storage_put "messages" trimmedHistory.

Definition clearHistory : Async unit :=
  storage_delete "messages".

Definition failure (msg : string) : ProcessResult :=
  {| success := false; error := Some msg; response := None |}.

Definition processMessage (webhookData : WhatsAppWebhookPayload) : Async ProcessResult :=
  try_catch
    (let entry0 := first (entry webhookData) in
     let changes0 := entry0 ≫= (λ e, first (changes e)) in
     let value0 := changes0 ≫= value in
     if negb (present (value0 ≫= messages)) || negb (present (value0 ≫= contacts))
     then ret (failure "Invalid webhook data")
     else
       match first (value0 ≫= contacts), first (value0 ≫= messages) with
       | Some contact, Some message =>
           let waId := wa_id contact in
           let messageId := wm_id message in
           let messageTimestamp :=
             newDate (Z.mul 1000 <$> parseInt P (wm_timestamp message)) in
           try_catch (markMessageAsRead messageId true) (λ _, ret tt) ;;
           if negb (bool_decide (wm_type message = text))
              || negb (from_option truthy false (wm_text message))
           then
             sendTextMessage
               "Sorry, I can only process text messages in this demo." waId ;;
             ret (failure "Unsupported message type")
           else
             content <- match wm_text message with
                        | Some body => ret body
                        | None => throw "Cannot read properties of undefined (reading 'body')"
                        end ;;
             history <- getHistory ;;
             let userMessage :=
               {| role := user; content := content; timestamp := messageTimestamp |} in
             addMessage userMessage ;;
             response <- generateResponse (history ++ [userMessage]) ;;
             let assistantMessage :=
               {| role := assistant; content := response; timestamp := now P |} in
             addMessage assistantMessage ;;
             undelivered <-
               try_catch
                 (sendTextMessage response waId ;; ret None)
                 (λ _, ret (Some (failure "Failed to send WhatsApp message"))) ;;
             match undelivered with
             | Some result => ret result
             | None =>
                 ret {| success := true; error := None; response := Some response |}
             end
       | _, _ => ret (failure "Missing contact or message")
       end)
    (λ msg, ret (failure msg)).

End Actor.

(** ** [worker.ts]: the dispatcher

    The Durable Object namespace [CONVERSATIONS]: one storage per object
    name ([idFromName]); an object never used yet has the empty storage.
    The outbound calls of all objects go to one log. *)

Record Cloud := {
  objects : gmap string (gmap string (list Message));
  outbound : list Call;
}.

(** A [c.json(...)] reply: status and the fields of its body. *)
Record JsonReply := {
  status : Z;
  reply_message : option string;
  reply_error : option string;
}.

Section Worker.

Variable P : Platform.

(** [CONVERSATIONS.get(idFromName(name)).processMessage(body)] *)
Definition stub_processMessage (name : string) (body : WhatsAppWebhookPayload)
    (c : Cloud) : Completion ProcessResult * Cloud :=
  let '(result, a) :=
    processMessage P body {| storage := objects c !!! name; calls := outbound c |} in
  (result, {| objects := <[name := storage a]> (objects c); outbound := calls a |}).

(** [app.post('/webhook', ...)] on a parsed body *)
Definition post_webhook (body : WhatsAppWebhookPayload) (c : Cloud) : JsonReply * Cloud :=
  let entry0 := first (entry body) in
  let changes0 := entry0 ≫= (λ e, first (changes e)) in
  let value0 := changes0 ≫= value in
  if negb (present (value0 ≫= messages)) || negb (present (value0 ≫= contacts))
  then ({| status := 200; reply_message := Some "Not a valid message object";
           reply_error := None |}, c)
  else
    match first (value0 ≫= contacts), first (value0 ≫= messages) with
    | Some contact, Some message =>
        let waId := wa_id contact in
        match stub_processMessage waId body c with
        | (Normal result, c') =>
            if success result
            then ({| status := 200; reply_message := Some "Message processed successfully";
                     reply_error := None |}, c')
            else ({| status := 500; reply_message := Some "Processing failed";
                     reply_error := error result |}, c')
        | (Throws _, c') =>
            ({| status := 500; reply_message := None;
                reply_error := Some "Failed to process message" |}, c')
        end
    | _, _ =>
        ({| status := 200; reply_message := Some "Invalid webhook data";
            reply_error := None |}, c)
    end.

End Worker.

(** ** [worker.ts]: webhook verification *)

(** The secrets of [Env] (the binding [CONVERSATIONS] is the [Cloud]). *)
Record Env := {
  OPENAI_API_KEY : string;
  SENDER_PHONE : string;
  FACEBOOK_AUTH_TOKEN : string;
  WEBHOOK_VERIFY_TOKEN : string;
}.

(** What a handler answers: [c.text(body)] or [c.json(...)]. *)
Inductive Reply :=
  | TextReply (code : Z) (body : string)
  | Json (r : JsonReply).

Definition reply_status (r : Reply) : Z :=
  match r with
  | TextReply code _ => code
  | Json r => status r
  end.

(** [app.get('/webhook', ...)]; [c.req.query(key)] is the lookup in the
    query parameters, undefined for a parameter that is not there. *)
Definition get_webhook (env : Env) (query : gmap string string) : Reply :=
  let mode := query !! "hub.mode" in
  let verificationToken := query !! "hub.verify_token" in
  let challenge := query !! "hub.challenge" in
  if bool_decide (mode = Some "subscribe")
     && from_option truthy false verificationToken
     && bool_decide (verificationToken = Some (WEBHOOK_VERIFY_TOKEN env))
  then
    TextReply 200 match challenge with       (* challenge || '' *)
                  | Some ch => if truthy ch then ch else ""
                  | None => ""
                  end
  else
    Json {| status := 403; reply_message := None;
            reply_error := Some "Verification failed" |}.

(** * Specification vocabulary *)

(** ** Reading a payload *)

(** [entry?.[0]?.changes?.[0]?.value] *)
Definition payload_value (p : WhatsAppWebhookPayload) : option WebhookValue :=
  (first (entry p) ≫= (λ e, first (changes e))) ≫= value.

(** The contact and the message that the code works on. *)
Definition first_contact (p : WhatsAppWebhookPayload) : option WhatsAppContact :=
  first (payload_value p ≫= contacts).

Definition first_message (p : WhatsAppWebhookPayload) : option WhatsAppMessage :=
  first (payload_value p ≫= messages).

(** Both arrays are there (possibly empty). *)
Definition has_arrays (p : WhatsAppWebhookPayload) : bool :=
  present (payload_value p ≫= messages) && present (payload_value p ≫= contacts).

(** The payload cut down to [entry[0]], its [changes[0]], and the first
    contact and first message of that change. *)
Definition first_value (v : WebhookValue) : WebhookValue :=
  {| messaging_product := messaging_product v;
     metadata := metadata v;
     contacts := take 1 <$> contacts v;
     messages := take 1 <$> messages v |}.

Definition first_changes (e : WebhookEntry) : WebhookEntry :=
  {| changes :=
       (λ cs, (λ ch, {| value := first_value <$> value ch |}) <$> take 1 cs)
       <$> changes e |}.

Definition first_only (p : WhatsAppWebhookPayload) : WhatsAppWebhookPayload :=
  {| entry := (λ es, first_changes <$> take 1 es) <$> entry p |}.

(** ** The history window *)

(** The history that [addMessage] writes for a history after the push. *)
Definition window (h : list Message) : list Message :=
  if (MAX_MESSAGES <? length h)%nat then slice_last MAX_MESSAGES h else h.

(** The history of an actor, and of a user key in the cloud. *)
Definition history (a : Actor) : list Message := stored_history (storage a).

Definition history_of (c : Cloud) (key : string) : list Message :=
  stored_history (objects c !!! key).

(** A caller appending a sequence of messages one by one. *)
Definition addMessages (ms : list Message) : Async unit :=
  foldr (λ m k, addMessage m ;; k) (ret tt) ms.

(** The states an actor can be in: it starts with an empty storage and
    is only changed by its two public operations. *)
Inductive reachable : Actor → Prop :=
  | reachable_fresh cs : reachable {| storage := ∅; calls := cs |}
  | reachable_processMessage P p s :
      reachable s → reachable (processMessage P p s).2
  | reachable_clearHistory s :
      reachable s → reachable (clearHistory s).2.

(** ** What the collaborators answer *)

Definition core (msg : Message) : CoreMessage :=
  {| core_role := role msg; core_content := content msg |}.

Definition APOLOGY : string :=
  "I apologize, but I encountered an error. Please try again.".

Definition EMPTY_REPLY : string := "I'm sorry, I couldn't generate a response.".

Definition TEXT_ONLY : string :=
  "Sorry, I can only process text messages in this demo.".

(** The text [generateResponse] resolves to for a message sequence. *)
Definition generated (P : Platform) (msgs : list Message) : string :=
  match generateText P SYSTEM_PROMPT (core <$> msgs) with
  | GenerateThrows _ => APOLOGY
  | GenerateText t => if truthy t then t else EMPTY_REPLY
  end.

(** How [sendTextMessage] ends for a text and a recipient. *)
Definition send_outcome (P : Platform) (message recipient : string) : Completion unit :=
  match fetchSend P recipient message with
  | NetworkError msg => Throws msg
  | HttpResponse true _ => Normal tt
  | HttpResponse false body => Throws ("Failed to send WhatsApp message: " +:+ body)
  end.

Definition delivered (P : Platform) (message recipient : string) : bool :=
  match send_outcome P message recipient with
  | Normal _ => true
  | Throws _ => false
  end.

(** The same platform with another answer to read receipts. *)
Definition with_receipt (r : string → bool → FetchResult) (P : Platform) : Platform :=
  {| parseInt := parseInt P; now := now P; fetchReceipt := r;
     fetchSend := fetchSend P; generateText := generateText P |}.

Definition log (c : Call) (s : Actor) : Actor :=
  {| storage := storage s; calls := calls s ++ [c] |}.

(** ** [processMessage] as a function of the payload, the platform and
    the actor's state *)

Definition delivered_result (reply : string) : ProcessResult :=
  {| success := true; error := None; response := Some reply |}.

Definition inbound_timestamp (P : Platform) (m : WhatsAppMessage) : Date :=
  newDate (Z.mul 1000 <$> parseInt P (wm_timestamp m)).

Definition userMessage_of (P : Platform) (m : WhatsAppMessage) : Message :=
  {| role := user; content := default "" (wm_text m);
     timestamp := inbound_timestamp P m |}.

Definition assistantMessage_of (P : Platform) (reply : string) : Message :=
  {| role := assistant; content := reply; timestamp := now P |}.

(** The test of the unsupported branch. *)
Definition unsupported (m : WhatsAppMessage) : bool :=
  negb (bool_decide (wm_type m = text)) || negb (from_option truthy false (wm_text m)).

Definition outcome (P : Platform) (p : WhatsAppWebhookPayload) (s : Actor)
    : Completion ProcessResult * Actor :=
  if negb (has_arrays p) then (Normal (failure "Invalid webhook data"), s)
  else
    match first_contact p, first_message p with
    | Some c, Some m =>
        let s1 := log (CallMarkRead (wm_id m) true) s in
        if unsupported m then
          (Normal (failure match send_outcome P TEXT_ONLY (wa_id c) with
                           | Normal _ => "Unsupported message type"
                           | Throws msg => msg
                           end),
           log (CallSendText TEXT_ONLY (wa_id c)) s1)
        else
          let u := userMessage_of P m in
          let reply := generated P (history s ++ [u]) in
          let a := assistantMessage_of P reply in
          (Normal (if delivered P reply (wa_id c) then delivered_result reply
                   else failure "Failed to send WhatsApp message"),
           {| storage :=
                <["messages" := window (window (history s ++ [u]) ++ [a])]> (storage s);
              calls := calls s ++ [CallMarkRead (wm_id m) true;
                                   CallGenerate SYSTEM_PROMPT (core <$> (history s ++ [u]));
                                   CallSendText reply (wa_id c)] |})
    | _, _ => (Normal (failure "Missing contact or message"), s)
    end.

(** The payload carries contact [c] and, as its message, the text message
    [m] with the non-empty body [body]: the input of the main path. *)
Definition accepted_text (p : WhatsAppWebhookPayload) (c : WhatsAppContact)
    (m : WhatsAppMessage) (body : string) : Prop :=
  first_contact p = Some c ∧ first_message p = Some m
  ∧ wm_type m = text ∧ wm_text m = Some body ∧ body ≠ "".

(** ** Sample inputs *)

Definition hello : WhatsAppMessage :=
  {| wm_id := "wamid.1"; wm_from := "15550100"; wm_timestamp := "1700000000";
     wm_type := text; wm_text := Some "Hello" |}.

Definition photo : WhatsAppMessage :=
  {| wm_id := "wamid.2"; wm_from := "15550100"; wm_timestamp := "1700000000";
     wm_type := image; wm_text := None |}.

Definition alice : WhatsAppContact := {| wa_id := "15550100"; profile := Some "Alice" |}.

Definition payload_of (cs : option (list WhatsAppContact))
    (ms : option (list WhatsAppMessage)) : WhatsAppWebhookPayload :=
  {| entry := Some [ {| changes := Some [ {| value := Some
       {| messaging_product := "whatsapp";
          metadata := {| display_phone_number := "15550199"; phone_number_id := "1234" |};
          contacts := cs; messages := ms |} |} ] |} ] |}.

Definition hello_payload : WhatsAppWebhookPayload := payload_of (Some [alice]) (Some [hello]).
Definition photo_payload : WhatsAppWebhookPayload := payload_of (Some [alice]) (Some [photo]).
Definition no_contact_payload : WhatsAppWebhookPayload := payload_of (Some []) (Some [hello]).
Definition status_payload : WhatsAppWebhookPayload := payload_of None None.

(** A platform on which every call succeeds. *)
Definition sunny : Platform :=
  {| parseInt := λ _, Some 1700000000%Z;
     now := DateMs 1700000001000;
     fetchReceipt := λ _ _, HttpResponse true "";
     fetchSend := λ _ _, HttpResponse true "";
     generateText := λ _ _, GenerateText "Hi! How can I help?" |}.

(** The provider refuses every text send. *)
Definition refusing : Platform :=
  {| parseInt := parseInt sunny; now := now sunny;
     fetchReceipt := fetchReceipt sunny;
     fetchSend := λ _ _, HttpResponse false "denied";
     generateText := generateText sunny |}.

(** The model is down. *)
Definition speechless : Platform :=
  {| parseInt := parseInt sunny; now := now sunny;
     fetchReceipt := fetchReceipt sunny;
     fetchSend := fetchSend sunny;
     generateText := λ _ _, GenerateThrows "503" |}.

Definition fresh : Actor := {| storage := ∅; calls := [] |}.

Definition old_message : Message :=
  {| role := user; content := "earlier"; timestamp := DateMs 1690000000000 |}.

(** An actor whose history holds [MAX_MESSAGES] entries. *)
Definition full : Actor :=
  {| storage := {[ "messages" := replicate 20 old_message ]}; calls := [] |}.

Definition empty_cloud : Cloud := {| objects := ∅; outbound := [] |}.

(** Messages told apart by their time. *)
Definition numbered (role : MessageRole) (n : nat) : Message :=
  {| role := role; content := "m"; timestamp := DateMs (Z.of_nat n) |}.

(** ** Well-formed histories *)





Definition processed : JsonReply :=
  {| status := 200; reply_message := Some "Message processed successfully";
     reply_error := None |}.

Definition processing_failed (e : string) : JsonReply :=
  {| status := 500; reply_message := Some "Processing failed";
     reply_error := Some e |}.

(** More sample inputs *)

Definition secrets : Env :=
  {| OPENAI_API_KEY := "sk-test"; SENDER_PHONE := "1234";
     FACEBOOK_AUTH_TOKEN := "EAAtest"; WEBHOOK_VERIFY_TOKEN := "my_secret_token_12345" |}.

Definition no_secret : Env :=
  {| OPENAI_API_KEY := "sk-test"; SENDER_PHONE := "1234";
     FACEBOOK_AUTH_TOKEN := "EAAtest"; WEBHOOK_VERIFY_TOKEN := "" |}.

(** * Properties *)

Lemma getHistory_run s : getHistory s = (Normal (history s), s).
Proof. reflexivity. Qed.

Lemma addMessage_run m s :
  addMessage m s =
  (Normal tt, {| storage := <["messages" := window (history s ++ [m])]> (storage s);
                 calls := calls s |}).
Proof. reflexivity. Qed.

Lemma history_put h st cs :
  history {| storage := <["messages" := h]> st; calls := cs |} = h.
Proof. unfold history, stored_history; simpl. by rewrite lookup_insert_eq. Qed.

Lemma slice_last_short {A} k (xs : list A) : length xs ≤ k → slice_last k xs = xs.
Proof. intros H. unfold slice_last. by replace (length xs - k) with 0 by lia. Qed.

Lemma slice_last_length {A} k (xs : list A) :
  length (slice_last k xs) = length xs `min` k.
Proof. unfold slice_last. rewrite length_drop. lia. Qed.

Lemma window_slice h : window h = slice_last MAX_MESSAGES h.
Proof.
  unfold window. destruct (Nat.ltb_spec MAX_MESSAGES (length h)); [done|].
  by rewrite slice_last_short.
Qed.

Lemma slice_last_app_long {A} k (xs ys : list A) :
  k ≤ length ys → slice_last k (xs ++ ys) = slice_last k ys.
Proof.
  intros H. unfold slice_last. rewrite length_app.
  replace (length xs + length ys - k) with (length xs + (length ys - k)) by lia.
  by rewrite drop_app_add.
Qed.

Lemma slice_last_idem_app {A} k (xs ys : list A) :
  slice_last k (slice_last k xs ++ ys) = slice_last k (xs ++ ys).
Proof.
  destruct (decide (length xs ≤ k)) as [Hle|Hgt].
  - by rewrite (slice_last_short k xs).
  - transitivity (slice_last k (take (length xs - k) xs ++ (slice_last k xs ++ ys))).
    + rewrite (slice_last_app_long k (take _ xs)); [done|].
      rewrite length_app, slice_last_length. lia.
    + f_equal. rewrite app_assoc. f_equal. apply take_drop.
Qed.

Lemma window_length h : length (window h) ≤ MAX_MESSAGES.
Proof. rewrite window_slice, slice_last_length. lia. Qed.

Lemma addMessage_bounded m s : length (history (addMessage m s).2) ≤ MAX_MESSAGES.
Proof. rewrite addMessage_run; simpl. rewrite history_put. apply window_length. Qed.

Lemma addMessages_run ms : ∀ s,
  length (history s) ≤ MAX_MESSAGES →
  ∃ s', addMessages ms s = (Normal tt, s')
        ∧ history s' = slice_last MAX_MESSAGES (history s ++ ms)
        ∧ calls s' = calls s.
Proof.
  induction ms as [|m ms IH]; intros s Hs.
  - exists s. rewrite app_nil_r, slice_last_short by done. done.
  - destruct (IH (addMessage m s).2 (addMessage_bounded m s)) as (s' & Hrun & Hh & Hc).
    exists s'. split_and!.
    + simpl. unfold bind at 1. rewrite addMessage_run in *. exact Hrun.
    + rewrite Hh, addMessage_run. simpl. rewrite history_put, window_slice.
      by rewrite slice_last_idem_app, <- app_assoc.
    + by rewrite Hc, addMessage_run.
Qed.

Lemma generateResponse_run P msgs s :
  generateResponse P msgs s =
  (Normal (generated P msgs), log (CallGenerate SYSTEM_PROMPT (core <$> msgs)) s).
Proof.
  unfold generateResponse, generated, try_catch, bind, call, log; simpl.
  fold core. change (map core msgs) with (core <$> msgs).
  by destruct (generateText P SYSTEM_PROMPT (core <$> msgs)).
Qed.

Lemma sendTextMessage_run P message recipient s :
  sendTextMessage P message recipient s =
  (send_outcome P message recipient, log (CallSendText message recipient) s).
Proof.
  unfold sendTextMessage, send_outcome, bind, call, log; simpl.
  by destruct (fetchSend P recipient message) as [|[]].
Qed.

Lemma markMessageAsRead_caught P messageId s :
  try_catch (markMessageAsRead P messageId true) (λ _, ret tt) s =
  (Normal tt, log (CallMarkRead messageId true) s).
Proof.
  unfold markMessageAsRead, try_catch, bind, call, log; simpl.
  by destruct (fetchReceipt P messageId true).
Qed.

Lemma bind_normal {A B} (c : Async A) (k : A → Async B) s a s' :
  c s = (Normal a, s') → bind c k s = k a s'.
Proof. unfold bind. by intros ->. Qed.

Lemma processMessage_outcome P p s : processMessage P p s = outcome P p s.
Proof.
  unfold processMessage, outcome, has_arrays, first_contact, first_message, payload_value.
  cbv zeta.
  destruct ((first (entry p) ≫= (λ e, first (changes e))) ≫= value) as [v|]; [|done].
  simpl. destruct (messages v) as [ms|]; [|done].
  destruct (contacts v) as [cs|]; [|done]. simpl.
  destruct cs as [|c cs]; [done|]. destruct ms as [|m ms]; [done|]. simpl.
  unfold try_catch at 1, bind at 1. rewrite markMessageAsRead_caught.
  fold (unsupported m). destruct (unsupported m) eqn:Hu.
  - unfold bind. rewrite sendTextMessage_run. fold TEXT_ONLY.
    by destruct (send_outcome P TEXT_ONLY (wa_id c)).
  - unfold unsupported in Hu. unfold userMessage_of, inbound_timestamp.
    destruct (wm_text m) as [body|]; simpl in *;
      [|by rewrite orb_true_r in Hu].
    erewrite bind_normal by reflexivity.
    erewrite bind_normal by apply getHistory_run.
    erewrite bind_normal by apply addMessage_run.
    erewrite bind_normal by apply generateResponse_run.
    erewrite bind_normal by apply addMessage_run.
    unfold bind, try_catch. rewrite sendTextMessage_run.
    unfold delivered, log; simpl.
    rewrite !history_put, !insert_insert_eq. rewrite <- !app_assoc; simpl.
    by destruct (send_outcome P _ (wa_id c)).
Qed.

(** ** The branches of [processMessage] *)

Lemma first_present {A} (xs : option (list A)) x : first xs = Some x → present xs = true.
Proof. by destruct xs. Qed.

Lemma has_arrays_first p c m :
  first_contact p = Some c → first_message p = Some m → has_arrays p = true.
Proof.
  unfold first_contact, first_message, has_arrays. intros Hc Hm.
  by rewrite (first_present _ _ Hc), (first_present _ _ Hm).
Qed.

Lemma truthy_nonempty s : truthy s = true ↔ s ≠ "".
Proof. by destruct s. Qed.

Lemma unsupported_non_text m : wm_type m ≠ text → unsupported m = true.
Proof. intros H. unfold unsupported. by rewrite bool_decide_eq_false_2. Qed.

Lemma unsupported_no_body m :
  wm_text m = None ∨ wm_text m = Some "" → unsupported m = true.
Proof. unfold unsupported. intros [-> | ->]; simpl; apply orb_true_r. Qed.

Lemma supported_text m body :
  wm_type m = text → wm_text m = Some body → body ≠ "" → unsupported m = false.
Proof.
  intros Ht Hb Hn. unfold unsupported. rewrite Hb, bool_decide_eq_true_2 by done.
  simpl. by rewrite (proj2 (truthy_nonempty body)).
Qed.

Lemma supported_content P m : unsupported m = false → content (userMessage_of P m) ≠ "".
Proof.
  unfold unsupported, userMessage_of. destruct (wm_text m) as [body|]; simpl.
  - intros [_ H]%orb_false_elim. apply truthy_nonempty. by destruct (truthy body).
  - by rewrite orb_true_r.
Qed.

Lemma generated_nonempty P msgs : generated P msgs ≠ "".
Proof.
  unfold generated. destruct (generateText _ _ _) as [|t]; [done|].
  destruct (truthy t) eqn:Ht; [by apply truthy_nonempty | done].
Qed.

Lemma window_subseteq h : window h ⊆ h.
Proof. rewrite window_slice. apply subseteq_drop. Qed.

Lemma window_nonempty h : h ≠ [] → window h ≠ [].
Proof.
  intros Hh Hw. apply (f_equal length) in Hw.
  rewrite window_slice, slice_last_length in Hw. unfold MAX_MESSAGES in Hw.
  destruct h; simpl in *; [done | lia].
Qed.

Lemma window_twice h u a :
  window (window (h ++ [u]) ++ [a]) = slice_last MAX_MESSAGES (h ++ [u; a]).
Proof.
  rewrite !window_slice, slice_last_idem_app. by rewrite <- app_assoc.
Qed.

Lemma slice_last_keeps {A} k (xs ys : list A) :
  length ys ≤ k → ∃ older, slice_last k (xs ++ ys) = older ++ ys.
Proof.
  intros H. unfold slice_last. rewrite length_app.
  destruct (decide (length xs + length ys ≤ k)).
  - exists xs. by replace (length xs + length ys - k) with 0 by lia.
  - exists (drop (length xs + length ys - k) xs).
    rewrite drop_app. f_equal.
    by replace (length xs + length ys - k - length xs) with 0 by lia.
Qed.

(** An accepted text message: the whole run. *)
Lemma processMessage_text P p c m body s :
  first_contact p = Some c → first_message p = Some m →
  wm_type m = text → wm_text m = Some body → body ≠ "" →
  let u := {| role := user; content := body; timestamp := inbound_timestamp P m |} in
  let reply := generated P (history s ++ [u]) in
  let a := {| role := assistant; content := reply; timestamp := now P |} in
  processMessage P p s =
  (Normal (if delivered P reply (wa_id c) then delivered_result reply
           else failure "Failed to send WhatsApp message"),
   {| storage := <["messages" := slice_last MAX_MESSAGES (history s ++ [u; a])]> (storage s);
      calls := calls s ++ [CallMarkRead (wm_id m) true;
                           CallGenerate SYSTEM_PROMPT (core <$> (history s ++ [u]));
                           CallSendText reply (wa_id c)] |}).
Proof.
  intros Hc Hm Ht Hb Hn. rewrite processMessage_outcome. unfold outcome.
  rewrite (has_arrays_first p c m), Hc, Hm, (supported_text m body) by done.
  simpl. unfold userMessage_of, assistantMessage_of. rewrite Hb; simpl.
  by rewrite window_twice.
Qed.

(** A first message that is not a supported text: the whole run. *)
Lemma processMessage_unsupported P p c m s :
  first_contact p = Some c → first_message p = Some m → unsupported m = true →
  processMessage P p s =
  (Normal (failure match fetchSend P (wa_id c) TEXT_ONLY with
                   | NetworkError msg => msg
                   | HttpResponse true _ => "Unsupported message type"
                   | HttpResponse false body => "Failed to send WhatsApp message: " +:+ body
                   end),
   {| storage := storage s;
      calls := calls s ++ [CallMarkRead (wm_id m) true; CallSendText TEXT_ONLY (wa_id c)] |}).
Proof.
  intros Hc Hm Hu. rewrite processMessage_outcome. unfold outcome.
  rewrite (has_arrays_first p c m), Hc, Hm, Hu by done. simpl.
  unfold log, send_outcome; simpl. rewrite <- app_assoc; simpl.
  by destruct (fetchSend P (wa_id c) TEXT_ONLY) as [|[]].
Qed.

(** No contact or no message: the whole run. *)
Lemma processMessage_rejected P p s :
  first_contact p = None ∨ first_message p = None →
  processMessage P p s =
  (Normal (failure (if has_arrays p then "Missing contact or message"
                    else "Invalid webhook data")), s).
Proof.
  intros H. rewrite processMessage_outcome. unfold outcome.
  destruct (has_arrays p); simpl; [|done].
  by destruct H as [-> | ->]; [|destruct (first_contact p)].
Qed.

(** [processMessage] always resolves: its outer handler catches every throw. *)
Lemma processMessage_resolves P p s : ∃ r s', processMessage P p s = (Normal r, s').
Proof.
  rewrite processMessage_outcome. unfold outcome.
  destruct (has_arrays p); simpl; [|eauto].
  destruct (first_contact p), (first_message p); eauto.
  destruct (unsupported _); eauto.
Qed.

(** ** Only the first elements are read *)

Lemma first_take {A} (xs : option (list A)) : first (take 1 <$> xs) = first xs.
Proof. by destruct xs as [[|x xs]|]. Qed.

Lemma present_fmap {A B} (f : A → B) (xs : option A) : present (f <$> xs) = present xs.
Proof. by destruct xs. Qed.

Lemma payload_value_first_only p :
  payload_value (first_only p) = first_value <$> payload_value p.
Proof.
  unfold payload_value, first_only; simpl.
  destruct (entry p) as [[|e es]|]; simpl; [done| |done].
  destruct (changes e) as [[|ch chs]|]; simpl; done.
Qed.

Lemma first_contact_first_only p : first_contact (first_only p) = first_contact p.
Proof.
  unfold first_contact. rewrite payload_value_first_only.
  destruct (payload_value p); simpl; [apply first_take | done].
Qed.

Lemma first_message_first_only p : first_message (first_only p) = first_message p.
Proof.
  unfold first_message. rewrite payload_value_first_only.
  destruct (payload_value p); simpl; [apply first_take | done].
Qed.

Lemma has_arrays_first_only p : has_arrays (first_only p) = has_arrays p.
Proof.
  unfold has_arrays. rewrite payload_value_first_only.
  destruct (payload_value p); simpl; [by rewrite !present_fmap | done].
Qed.

Lemma outcome_first_only P p s : outcome P (first_only p) s = outcome P p s.
Proof.
  unfold outcome.
  by rewrite has_arrays_first_only, first_contact_first_only, first_message_first_only.
Qed.

(** ** The dispatcher *)

Lemma stub_processMessage_run P name p c :
  stub_processMessage P name p c =
  let '(result, a) := outcome P p {| storage := objects c !!! name; calls := outbound c |} in
  (result, {| objects := <[name := storage a]> (objects c); outbound := calls a |}).
Proof. unfold stub_processMessage. by rewrite processMessage_outcome. Qed.

Lemma post_webhook_run P p c :
  post_webhook P p c =
  if negb (has_arrays p)
  then ({| status := 200; reply_message := Some "Not a valid message object";
           reply_error := None |}, c)
  else
    match first_contact p, first_message p with
    | Some contact, Some message =>
        match stub_processMessage P (wa_id contact) p c with
        | (Normal result, c') =>
            if success result
            then ({| status := 200; reply_message := Some "Message processed successfully";
                     reply_error := None |}, c')
            else ({| status := 500; reply_message := Some "Processing failed";
                     reply_error := error result |}, c')
        | (Throws _, c') =>
            ({| status := 500; reply_message := None;
                reply_error := Some "Failed to process message" |}, c')
        end
    | _, _ =>
        ({| status := 200; reply_message := Some "Invalid webhook data";
            reply_error := None |}, c)
    end.
Proof.
  unfold post_webhook, has_arrays, first_contact, first_message, payload_value.
  cbv zeta. by rewrite negb_andb.
Qed.

Lemma history_of_same_object c name cs :
  ∀ key, history_of {| objects := <[name := objects c !!! name]> (objects c);
                       outbound := cs |} key = history_of c key.
Proof.
  intros key. unfold history_of; simpl.
  destruct (decide (name = key)) as [->|Hne].
  - by rewrite lookup_total_insert_eq.
  - by rewrite lookup_total_insert_ne.
Qed.

(** ** Reachable states never store an empty array *)

Lemma reachable_no_empty_array s : reachable s → storage s !! "messages" ≠ Some [].
Proof.
  induction 1 as [cs | P p s _ IH | s _ IH]; simpl.
  - by rewrite lookup_empty.
  - rewrite processMessage_outcome. unfold outcome.
    destruct (has_arrays p); simpl; [|done].
    destruct (first_contact p), (first_message p); simpl; try done.
    destruct (unsupported _); simpl; [done|].
    rewrite lookup_insert_eq. intros [= H]. revert H. apply window_nonempty.
    by destruct (window _).
  - by rewrite lookup_delete_eq.
Qed.

Lemma hello_accepted : accepted_text hello_payload alice hello "Hello".
Proof. by repeat split. Qed.

(** ** The model at work *)

(** A first "Hello" through the dispatcher: both messages are stored under
    the sender's key, the reply is sent once, the webhook answers 200. *)
Example hello_conversation :
  let '(reply, c) := post_webhook sunny hello_payload empty_cloud in
  reply = {| status := 200; reply_message := Some "Message processed successfully";
             reply_error := None |}
  ∧ history_of c "15550100"
    = [ {| role := user; content := "Hello"; timestamp := DateMs 1700000000000 |};
        {| role := assistant; content := "Hi! How can I help?";
           timestamp := DateMs 1700000001000 |} ]
  ∧ outbound c
    = [ CallMarkRead "wamid.1" true;
        CallGenerate SYSTEM_PROMPT [ {| core_role := user; core_content := "Hello" |} ];
        CallSendText "Hi! How can I help?" "15550100" ].
Proof. by vm_compute. Qed.

(** A status event is acknowledged by the dispatcher without touching an
    actor. *)
Example status_event_acknowledged :
  post_webhook sunny status_payload empty_cloud
  = ({| status := 200; reply_message := Some "Not a valid message object";
        reply_error := None |}, empty_cloud).
Proof. reflexivity. Qed.

(** Twenty-two appends, alternating roles: the first two are gone. *)
Example window_of_22_appends :
  let ms := (λ n, numbered (if Nat.even n then assistant else user) n) <$> seq 1 22 in
  history (addMessages ms fresh).2 = drop 2 ms
  ∧ length (history (addMessages ms fresh).2) = 20.
Proof. by vm_compute. Qed.

(** * The properties of the specification *)

(** C1. Sliding-window history bound: appending any sequence [ms] of
    messages, of any roles, one by one with [addMessage] to an initially
    empty storage completes and leaves as persisted history the last
    [min (length ms) 20] messages of [ms] in their order of appending; in
    particular the history never holds more than 20 entries. *)
Theorem addMessage_sliding_window (ms : list Message) (cs : list Call) :
  ∃ s', addMessages ms {| storage := ∅; calls := cs |} = (Normal tt, s')
        ∧ getHistory s' = (Normal (drop (length ms - 20) ms), s')
        ∧ length (history s') = length ms `min` 20
        ∧ length (history s') ≤ 20.
Proof.
  destruct (addMessages_run ms {| storage := ∅; calls := cs |}) as (s' & Hrun & Hh & _).
  { unfold history, stored_history; simpl. rewrite lookup_empty; simpl. unfold MAX_MESSAGES. lia. }
  assert (history s' = drop (length ms - 20) ms) as Heq.
  { rewrite Hh. unfold history at 1, stored_history; simpl. by rewrite lookup_empty. }
  exists s'. rewrite getHistory_run, Heq, length_drop. split_and!; [done|done|lia|lia].
Qed.

(** C2, as stated, fails on a full history: with 20 entries stored, the
    generator is called with 21 messages, the stored ones and the new
    user message, while the history persisted by the append holds 20. *)
Lemma generator_receives_21_messages_on_full_history :
  let u := userMessage_of sunny hello in
  calls (processMessage sunny hello_payload full).2
    = [CallMarkRead "wamid.1" true;
       CallGenerate SYSTEM_PROMPT (core <$> (history full ++ [u]));
       CallSendText "Hi! How can I help?" "15550100"]
  ∧ core <$> (history full ++ [u]) ≠ core <$> history (addMessage u full).2
  ∧ length (history full ++ [u]) = 21
  ∧ length (history (addMessage u full).2) = 20.
Proof.
  split_and!; [by vm_compute| |by vm_compute|by vm_compute].
  intros H. apply (f_equal length) in H. vm_compute in H. discriminate H.
Qed.

(** C2 (amended). For every accepted inbound text message the sequence
    passed to the generator is the history loaded before the append
    followed by the new user message, untrimmed.  The history persisted by
    the append is the last 20 entries of that sequence, so the two are
    equal whenever fewer than 20 entries were stored before. *)
Theorem generator_receives_loaded_history_then_user_message P p c m body s :
  accepted_text p c m body →
  let u := {| role := user; content := body; timestamp := inbound_timestamp P m |} in
  let persisted := history (addMessage u s).2 in
  (∃ r s' reply,
      processMessage P p s = (Normal r, s')
      ∧ calls s' = calls s ++ [CallMarkRead (wm_id m) true;
                               CallGenerate SYSTEM_PROMPT (core <$> (history s ++ [u]));
                               CallSendText reply (wa_id c)])
  ∧ persisted = drop (length (history s ++ [u]) - 20) (history s ++ [u])
  ∧ (length (history s) < 20 → history s ++ [u] = persisted).
Proof.
  intros (Hc & Hm & Ht & Hb & Hn) u persisted. split_and!.
  - rewrite (processMessage_text P p c m body s) by done. eauto.
  - unfold persisted. rewrite addMessage_run; simpl. by rewrite history_put, window_slice.
  - intros Hlen. unfold persisted. rewrite addMessage_run; simpl.
    rewrite history_put, window_slice, slice_last_short; [done|].
    rewrite length_app; simpl. unfold MAX_MESSAGES. lia.
Qed.

Lemma generator_receives_loaded_history_then_user_message_witness :
  accepted_text hello_payload alice hello "Hello"
  ∧ let u := {| role := user; content := "Hello";
                timestamp := inbound_timestamp sunny hello |} in
    let persisted := history (addMessage u fresh).2 in
    (∃ r s' reply,
        processMessage sunny hello_payload fresh = (Normal r, s')
        ∧ calls s' = calls fresh ++ [CallMarkRead (wm_id hello) true;
                                     CallGenerate SYSTEM_PROMPT (core <$> (history fresh ++ [u]));
                                     CallSendText reply (wa_id alice)])
    ∧ persisted = drop (length (history fresh ++ [u]) - 20) (history fresh ++ [u])
    ∧ (length (history fresh) < 20 → history fresh ++ [u] = persisted).
Proof.
  split; [exact hello_accepted|].
  exact (generator_receives_loaded_history_then_user_message
           sunny hello_payload alice hello "Hello" fresh hello_accepted).
Defined.

(** C3, as stated, fails when an array is present but empty: the error
    is then "Missing contact or message". *)
Lemma empty_contacts_array_is_reported_as_missing :
  first_contact no_contact_payload = None
  ∧ processMessage sunny no_contact_payload fresh
    = (Normal (failure "Missing contact or message"), fresh)
  ∧ failure "Missing contact or message" ≠ failure "Invalid webhook data".
Proof. split_and!; [by vm_compute | by vm_compute | discriminate]. Qed.

(** C3 (amended). For every payload without a first contact or without a
    first message, [processMessage] returns [success = false]; the error
    is "Invalid webhook data" when the contacts or the messages array is
    absent, and "Missing contact or message" when both arrays are there
    but one is empty.  Nothing is mutated and no call is made: the actor
    is unchanged, and run on any object of the cloud the call leaves the
    history of every user key and the log of outbound calls as they
    were. *)
Theorem payload_without_contact_or_message_rejected P p :
  first_contact p = None ∨ first_message p = None →
  let e := if has_arrays p then "Missing contact or message"
           else "Invalid webhook data" in
  (∀ s, processMessage P p s = (Normal (failure e), s))
  ∧ (∀ name c, ∃ c',
        stub_processMessage P name p c = (Normal (failure e), c')
        ∧ outbound c' = outbound c
        ∧ ∀ key, history_of c' key = history_of c key).
Proof.
  intros H e. split.
  - intros s. by apply processMessage_rejected.
  - intros name c. unfold stub_processMessage.
    rewrite processMessage_rejected by done. simpl.
    eexists. split_and!; [done|done|]. apply history_of_same_object.
Qed.

Lemma payload_without_contact_or_message_rejected_witness :
  (first_contact status_payload = None ∨ first_message status_payload = None)
  ∧ (∀ s, processMessage sunny status_payload s
          = (Normal (failure "Invalid webhook data"), s))
  ∧ (∀ name c, ∃ c',
        stub_processMessage sunny name status_payload c
        = (Normal (failure "Invalid webhook data"), c')
        ∧ outbound c' = outbound c
        ∧ ∀ key, history_of c' key = history_of c key).
Proof.
  split; [left; reflexivity|].
  exact (payload_without_contact_or_message_rejected sunny status_payload
           (or_introl eq_refl)).
Defined.

(** C4, as stated, fails when the send of the notice itself fails: the
    error returned is then the message of the delivery error. *)
Lemma failed_notice_changes_the_error :
  wm_type photo ≠ text
  ∧ processMessage refusing photo_payload fresh
    = (Normal (failure "Failed to send WhatsApp message: denied"),
       {| storage := ∅;
          calls := [CallMarkRead "wamid.2" true; CallSendText TEXT_ONLY "15550100"] |})
  ∧ failure "Failed to send WhatsApp message: denied"
    ≠ failure "Unsupported message type".
Proof. split_and!; [discriminate | by vm_compute | discriminate]. Qed.

(** C4 (amended). For every inbound message whose type is not text,
    [processMessage] leaves the storage unchanged, never calls the
    generator, sends exactly one text, the fixed notice, to the sender,
    and returns [success = false]; the error is "Unsupported message type"
    when that send succeeds and the message of the delivery error when it
    fails. *)
Theorem non_text_message_gets_notice P p c m s :
  first_contact p = Some c → first_message p = Some m → wm_type m ≠ text →
  processMessage P p s =
  (Normal {| success := false;
             error := Some match fetchSend P (wa_id c) TEXT_ONLY with
                           | HttpResponse true _ => "Unsupported message type"
                           | HttpResponse false body =>
                               "Failed to send WhatsApp message: " +:+ body
                           | NetworkError msg => msg
                           end;
             response := None |},
   {| storage := storage s;
      calls := calls s ++ [CallMarkRead (wm_id m) true;
                           CallSendText TEXT_ONLY (wa_id c)] |}).
Proof.
  intros Hc Hm Ht.
  rewrite (processMessage_unsupported P p c m s Hc Hm (unsupported_non_text m Ht)).
  unfold failure. by destruct (fetchSend _ _ _) as [|[]].
Qed.

Lemma non_text_message_gets_notice_witness :
  (first_contact photo_payload = Some alice ∧ first_message photo_payload = Some photo
   ∧ wm_type photo ≠ text)
  ∧ processMessage sunny photo_payload fresh =
    (Normal {| success := false; error := Some "Unsupported message type";
               response := None |},
     {| storage := ∅;
        calls := [CallMarkRead "wamid.2" true; CallSendText TEXT_ONLY "15550100"] |}).
Proof.
  split; [split_and!; [reflexivity | reflexivity | discriminate]|].
  exact (non_text_message_gets_notice sunny photo_payload alice photo fresh
           eq_refl eq_refl (λ H, eq_ind image (λ t, if t is image then True else False)
                                   I text H)).
Defined.

(** C5. Generation failure is fully absorbed: for every accepted inbound
    text message for which the generator call throws, [processMessage]
    still resolves, the assistant entry appended to the history (after the
    user entry) carries the fixed apology text, the result does not
    depend on the failure, and it is [success = true] with the apology as
    response provided the delivery succeeds. *)
Theorem generation_failure_absorbed P p c m body s msg :
  accepted_text p c m body →
  let u := {| role := user; content := body; timestamp := inbound_timestamp P m |} in
  let a := {| role := assistant; content := APOLOGY; timestamp := now P |} in
  generateText P SYSTEM_PROMPT (core <$> (history s ++ [u])) = GenerateThrows msg →
  ∃ r s',
    processMessage P p s = (Normal r, s')
    ∧ (∃ older, history s' = older ++ [u; a])
    ∧ r = (if delivered P APOLOGY (wa_id c) then delivered_result APOLOGY
           else failure "Failed to send WhatsApp message")
    ∧ (delivered P APOLOGY (wa_id c) = true →
       success r = true ∧ error r = None ∧ response r = Some APOLOGY).
Proof.
  intros (Hc & Hm & Ht & Hb & Hn) u a Hgen. subst u a.
  rewrite (processMessage_text P p c m body s) by done. cbv zeta.
  assert (generated P (history s ++ [{| role := user; content := body;
                                         timestamp := inbound_timestamp P m |}])
          = APOLOGY) as ->.
  { unfold generated. by rewrite Hgen. }
  do 2 eexists. split_and!; [done| |done|].
  - rewrite history_put. apply slice_last_keeps. simpl. unfold MAX_MESSAGES. lia.
  - by intros ->.
Qed.

Lemma generation_failure_absorbed_witness :
  (accepted_text hello_payload alice hello "Hello"
   ∧ generateText speechless SYSTEM_PROMPT
       (core <$> (history fresh ++
                  [{| role := user; content := "Hello";
                      timestamp := inbound_timestamp speechless hello |}]))
     = GenerateThrows "503")
  ∧ ∃ r s',
      processMessage speechless hello_payload fresh = (Normal r, s')
      ∧ (∃ older,
            history s' = older ++
              [{| role := user; content := "Hello";
                  timestamp := inbound_timestamp speechless hello |};
               {| role := assistant; content := APOLOGY; timestamp := now speechless |}])
      ∧ r = (if delivered speechless APOLOGY (wa_id alice) then delivered_result APOLOGY
             else failure "Failed to send WhatsApp message")
      ∧ (delivered speechless APOLOGY (wa_id alice) = true →
         success r = true ∧ error r = None ∧ response r = Some APOLOGY).
Proof.
  split; [split; [exact hello_accepted | reflexivity]|].
  exact (generation_failure_absorbed speechless hello_payload alice hello "Hello"
           fresh "503" hello_accepted eq_refl).
Defined.

(** C6. Delivery partial failure: for every accepted inbound text message
    for which the send of the assistant reply fails, [processMessage]
    returns [success = false] with error "Failed to send WhatsApp message",
    and the persisted history already ends with the new user message
    followed by the new assistant message. *)
Theorem delivery_failure_keeps_history P p c m body s :
  accepted_text p c m body →
  let u := {| role := user; content := body; timestamp := inbound_timestamp P m |} in
  let reply := generated P (history s ++ [u]) in
  let a := {| role := assistant; content := reply; timestamp := now P |} in
  delivered P reply (wa_id c) = false →
  ∃ s',
    processMessage P p s
    = (Normal {| success := false; error := Some "Failed to send WhatsApp message";
                 response := None |}, s')
    ∧ ∃ older, history s' = older ++ [u; a].
Proof.
  intros (Hc & Hm & Ht & Hb & Hn) u reply a Hd. subst u reply a.
  rewrite (processMessage_text P p c m body s) by done. cbv zeta.
  rewrite Hd. eexists. split; [done|].
  rewrite history_put. apply slice_last_keeps. simpl. unfold MAX_MESSAGES. lia.
Qed.

Lemma delivery_failure_keeps_history_witness :
  (accepted_text hello_payload alice hello "Hello"
   ∧ delivered refusing
       (generated refusing
          (history fresh ++ [{| role := user; content := "Hello";
                                timestamp := inbound_timestamp refusing hello |}]))
       (wa_id alice) = false)
  ∧ ∃ s',
      processMessage refusing hello_payload fresh
      = (Normal {| success := false; error := Some "Failed to send WhatsApp message";
                   response := None |}, s')
      ∧ ∃ older,
          history s' = older ++
            [{| role := user; content := "Hello";
                timestamp := inbound_timestamp refusing hello |};
             {| role := assistant;
                content := generated refusing
                             (history fresh ++
                              [{| role := user; content := "Hello";
                                  timestamp := inbound_timestamp refusing hello |}]);
                timestamp := now refusing |}].
Proof.
  split; [split; [exact hello_accepted | reflexivity]|].
  exact (delivery_failure_keeps_history refusing hello_payload alice hello "Hello"
           fresh hello_accepted eq_refl).
Defined.

(** C7. Read-receipt noninterference: two runs of [processMessage] on the
    same event and state, on platforms that differ only in what the
    provider answers to the read receipt (success, refusal or a network
    error), end with the same result and the same actor state: the same
    persisted history and the same outbound calls. *)
Theorem read_receipt_noninterference P r1 r2 p s :
  processMessage (with_receipt r1 P) p s = processMessage (with_receipt r2 P) p s.
Proof. by rewrite !processMessage_outcome. Qed.

(** C8. Non-empty persisted content: every message in the history after
    [processMessage] was either there before or has non-empty content; a
    text message whose body is absent or empty is diverted to the branch of
    unsupported messages, which leaves the storage as it is; and
    [generateResponse] always resolves to a non-empty text, an empty
    generated text being replaced by a fixed fallback string. *)
Theorem persisted_content_nonempty P p s :
  (∀ x, x ∈ history (processMessage P p s).2 → x ∈ history s ∨ content x ≠ "")
  ∧ (∀ c m, first_contact p = Some c → first_message p = Some m →
            wm_type m = text → wm_text m = None ∨ wm_text m = Some "" →
            storage (processMessage P p s).2 = storage s
            ∧ calls (processMessage P p s).2
              = calls s ++ [CallMarkRead (wm_id m) true; CallSendText TEXT_ONLY (wa_id c)])
  ∧ (∀ msgs s0, ∃ reply s1,
        generateResponse P msgs s0 = (Normal reply, s1) ∧ reply ≠ "")
  ∧ (∀ msgs s0, generateText P SYSTEM_PROMPT (core <$> msgs) = GenerateText "" →
                (generateResponse P msgs s0).1 = Normal EMPTY_REPLY).
Proof.
  split_and!.
  - intros x. rewrite processMessage_outcome. unfold outcome.
    destruct (has_arrays p); simpl; [|by left].
    destruct (first_contact p) as [c|], (first_message p) as [m|]; simpl; try by left.
    destruct (unsupported m) eqn:Hu; simpl; [by left|].
    rewrite history_put. intros Hx%window_subseteq.
    apply elem_of_app in Hx as [Hx%window_subseteq | ->%list_elem_of_singleton].
    + apply elem_of_app in Hx as [Hx | ->%list_elem_of_singleton]; [by left|].
      right. by apply supported_content.
    + right. apply generated_nonempty.
  - intros c m Hc Hm _ Hb.
    by rewrite (processMessage_unsupported P p c m s Hc Hm (unsupported_no_body m Hb)).
  - intros msgs s0. rewrite generateResponse_run.
    do 2 eexists. split; [done | apply generated_nonempty].
  - intros msgs s0 Hgen. rewrite generateResponse_run. simpl.
    unfold generated. by rewrite Hgen.
Qed.

(** C9. [clearHistory] followed by a load of the history yields the empty
    sequence from every state; clearing twice is clearing once; and on
    every state the actor can reach in which the history is empty, and in
    particular just after a clear, [clearHistory] changes nothing. *)
Theorem clearHistory_empties_and_is_idempotent :
  (∀ s, ∃ s', clearHistory s = (Normal tt, s') ∧ getHistory s' = (Normal [], s'))
  ∧ (∀ s, (clearHistory ;; clearHistory) s = clearHistory s)
  ∧ (∀ s, clearHistory (clearHistory s).2 = (Normal tt, (clearHistory s).2))
  ∧ (∀ s, reachable s → history s = [] → clearHistory s = (Normal tt, s)).
Proof.
  split_and!.
  - intros s. eexists. split; [reflexivity|].
    rewrite getHistory_run. unfold history, stored_history; simpl.
    by rewrite lookup_delete_eq.
  - intros s. unfold clearHistory, storage_delete, bind; simpl.
    by rewrite delete_delete_eq.
  - intros s. unfold clearHistory, storage_delete; simpl.
    by rewrite delete_delete_eq.
  - intros s Hr Hh. apply reachable_no_empty_array in Hr.
    unfold clearHistory, storage_delete. destruct s as [st cs]; simpl in *.
    rewrite delete_id; [done|].
    unfold history, stored_history in Hh; simpl in Hh.
    by destruct (st !! "messages") as [h|]; simplify_eq/=.
Qed.

(** C10. First-element-only processing: for every payload, the actor and
    the dispatcher behave exactly as they do on the payload cut down to
    [entry[0]], its [changes[0]], [contacts[0]] and [messages[0]]: the same
    result, the same histories and the same outbound calls.  Further
    entries, changes, contacts and messages have no effect. *)
Theorem only_first_elements_are_read P p :
  (∀ s, processMessage P (first_only p) s = processMessage P p s)
  ∧ (∀ c, post_webhook P (first_only p) c = post_webhook P p c).
Proof.
  split.
  - intros s. by rewrite !processMessage_outcome, outcome_first_only.
  - intros c. rewrite !post_webhook_run.
    rewrite has_arrays_first_only, first_contact_first_only, first_message_first_only.
    destruct (has_arrays p); simpl; [|done].
    destruct (first_contact p), (first_message p); try done.
    by rewrite !stub_processMessage_run, outcome_first_only.
Qed.

(** * Further properties of the code *)

(** ** [addMessage] on any state *)

(** X1. From every state, also one whose stored history is longer than
    the bound, [addMessage m] resolves, makes no outbound call, and leaves
    a history that ends with [m], is what remains of the old history
    followed by [m] once the oldest entries are dropped, and holds
    [min (n + 1) 20] entries for [n] entries before. *)
Theorem addMessage_appends_and_bounds m s :
  ∃ s' dropped,
    addMessage m s = (Normal tt, s')
    ∧ history s ++ [m] = dropped ++ history s'
    ∧ last (history s') = Some m
    ∧ length (history s') = (length (history s) + 1) `min` 20
    ∧ calls s' = calls s.
Proof.
  rewrite addMessage_run.
  eexists _, (take (length (history s ++ [m]) - MAX_MESSAGES) (history s ++ [m])).
  rewrite history_put, window_slice. split_and!; [done| | | |done].
  - unfold slice_last. by rewrite take_drop.
  - destruct (slice_last_keeps MAX_MESSAGES (history s) [m]) as [older ->].
    + simpl. unfold MAX_MESSAGES. lia.
    + apply last_snoc.
  - rewrite slice_last_length, length_app. simpl. unfold MAX_MESSAGES. lia.
Qed.

(** ** Histories made of exchanges *)











Lemma last_exchange {A} (older : list A) u a : last (older ++ [u; a]) = Some a.
Proof. change (older ++ [u; a]) with (older ++ [u] ++ [a]). by rewrite app_assoc, last_snoc. Qed.

Lemma slice_last_exchange (h : list Message) u a :
  last (slice_last MAX_MESSAGES (h ++ [u; a])) = Some a.
Proof.
  destruct (slice_last_keeps MAX_MESSAGES h [u; a]) as [older ->].
  - simpl. unfold MAX_MESSAGES. lia.
  - apply last_exchange.
Qed.

Lemma delivered_ok P t to :
  delivered P t to = true → ∃ body, fetchSend P to t = HttpResponse true body.
Proof.
  unfold delivered, send_outcome.
  destruct (fetchSend P to t) as [|[] body]; [done| |done]. eauto.
Qed.

(** ** The actor *)



Ltac failed_result :=
  eexists _, _; split; [reflexivity | right; eauto].

Lemma processMessage_result_cases P p s :
  ∃ r s',
    processMessage P p s = (Normal r, s')
    ∧ ((∃ reply, r = delivered_result reply ∧ reply ≠ "") ∨ ∃ e, r = failure e).
Proof.
  rewrite processMessage_outcome. unfold outcome.
  destruct (has_arrays p); simpl; [|by failed_result].
  destruct (first_contact p) as [c|], (first_message p) as [m|]; simpl;
    try by failed_result.
  destruct (unsupported m); simpl; [by failed_result|].
  destruct (delivered P _ (wa_id c)); [|by failed_result].
  eexists _, _. split; [reflexivity|]. left. eexists. split; [done|].
  apply generated_nonempty.
Qed.

(** X3. [processMessage] never rejects: on every payload, platform and
    state it resolves to a result, and the result is either a success
    that carries a non-empty response and no error, or a failure that
    carries an error and no response. *)
Theorem processMessage_result_well_formed P p s :
  ∃ r s',
    processMessage P p s = (Normal r, s')
    ∧ if success r
      then error r = None ∧ ∃ t, response r = Some t ∧ t ≠ ""
      else response r = None ∧ ∃ e, error r = Some e.
Proof.
  destruct (processMessage_result_cases P p s) as (r & s' & Hrun & Hr).
  exists r, s'. split; [done|].
  destruct Hr as [(reply & -> & Hreply) | (e & ->)]; simpl; eauto.
Qed.

(** X4. The outbound calls of one [processMessage]: the log of earlier
    calls is kept and extended by nothing, or by a read receipt (with
    typing indicator) and the fixed notice, or by a read receipt, one
    generation with the system prompt and one text send.  So no text is
    ever sent before the read receipt, and there is at most one
    generation and one send per event. *)
Theorem processMessage_call_discipline P p s :
  ∃ new,
    calls (processMessage P p s).2 = calls s ++ new
    ∧ (new = []
       ∨ (∃ id to, new = [CallMarkRead id true; CallSendText TEXT_ONLY to])
       ∨ (∃ id msgs reply to,
             new = [CallMarkRead id true; CallGenerate SYSTEM_PROMPT msgs;
                    CallSendText reply to])).
Proof.
  rewrite processMessage_outcome. unfold outcome.
  destruct (has_arrays p); simpl; [|exists []; by rewrite app_nil_r; auto].
  destruct (first_contact p) as [c|], (first_message p) as [m|]; simpl;
    try (exists []; by rewrite app_nil_r; auto).
  destruct (unsupported m); simpl.
  - eexists. rewrite <- app_assoc. split; [done|]. right; left. eauto.
  - eexists. split; [done|]. right; right. eauto 6.
Qed.

(** X5. A success means the reply was sent and is remembered: when
    [processMessage] returns [success = true], the response it returns is
    the text of the last outbound call, a send to the first contact that
    the provider accepted, and the content of the last entry of the
    history, an assistant message. *)
Theorem success_means_sent_and_stored P p s r s' :
  processMessage P p s = (Normal r, s') → success r = true →
  ∃ reply ct body,
    first_contact p = Some ct
    ∧ response r = Some reply
    ∧ last (calls s') = Some (CallSendText reply (wa_id ct))
    ∧ fetchSend P (wa_id ct) reply = HttpResponse true body
    ∧ last (history s')
      = Some {| role := assistant; content := reply; timestamp := now P |}.
Proof.
  rewrite processMessage_outcome. unfold outcome.
  destruct (has_arrays p); simpl; [|by intros [= <- <-]].
  destruct (first_contact p) as [c|], (first_message p) as [m|]; simpl;
    try by intros [= <- <-].
  destruct (unsupported m); simpl; [by intros [= <- <-]|].
  destruct (delivered P _ (wa_id c)) eqn:Hd; intros [= <- <-]; [|done].
  intros _. destruct (delivered_ok _ _ _ Hd) as [body Hbody].
  eexists _, c, body. split_and!; [done|done| |done|].
  - simpl. by rewrite (last_app_cons _ _ _), !last_cons_cons.
  - rewrite history_put, window_twice. apply slice_last_exchange.
Qed.

Lemma success_means_sent_and_stored_witness :
  (processMessage sunny hello_payload fresh
   = (Normal (delivered_result "Hi! How can I help?"),
      (processMessage sunny hello_payload fresh).2)
   ∧ success (delivered_result "Hi! How can I help?") = true)
  ∧ ∃ reply ct body,
      first_contact hello_payload = Some ct
      ∧ response (delivered_result "Hi! How can I help?") = Some reply
      ∧ last (calls (processMessage sunny hello_payload fresh).2)
        = Some (CallSendText reply (wa_id ct))
      ∧ fetchSend sunny (wa_id ct) reply = HttpResponse true body
      ∧ last (history (processMessage sunny hello_payload fresh).2)
        = Some {| role := assistant; content := reply; timestamp := now sunny |}.
Proof.
  split; [split; reflexivity|].
  exact (success_means_sent_and_stored sunny hello_payload fresh
           (delivered_result "Hi! How can I help?")
           (processMessage sunny hello_payload fresh).2 eq_refl eq_refl).
Defined.

(** ** The dispatcher *)

Lemma stub_processMessage_cloud P name p c :
  stub_processMessage P name p c =
  let run := processMessage P p {| storage := objects c !!! name; calls := outbound c |} in
  (run.1, {| objects := <[name := storage run.2]> (objects c); outbound := calls run.2 |}).
Proof. unfold stub_processMessage. by destruct (processMessage _ _ _). Qed.

(** Where the cloud after a request comes from: it is the old one, or the
    one left by the actor of the first contact. *)
Lemma post_webhook_cloud P p c :
  (post_webhook P p c).2 = c
  ∨ ∃ ct, first_contact p = Some ct
          ∧ (post_webhook P p c).2 = (stub_processMessage P (wa_id ct) p c).2.
Proof.
  rewrite post_webhook_run.
  destruct (has_arrays p); simpl; [|by left].
  destruct (first_contact p) as [ct|], (first_message p) as [m|]; try by left.
  right. exists ct. split; [done|].
  destruct (stub_processMessage P (wa_id ct) p c) as [[r|e] c']; [|done].
  by destruct (success r).
Qed.



(** X7. Isolation between users: a [POST /webhook] request changes no
    object other than the one named by the [wa_id] of the payload's first
    contact. *)
Theorem post_webhook_touches_one_object P p c key :
  (∀ ct, first_contact p = Some ct → wa_id ct ≠ key) →
  objects (post_webhook P p c).2 !! key = objects c !! key.
Proof.
  intros Hkey.
  destruct (post_webhook_cloud P p c) as [-> | (ct & Hct & ->)]; [done|].
  rewrite stub_processMessage_cloud. simpl.
  by rewrite lookup_insert_ne by by apply Hkey.
Qed.

Lemma post_webhook_touches_one_object_witness :
  (∀ ct, first_contact hello_payload = Some ct → wa_id ct ≠ "15550101")
  ∧ objects (post_webhook sunny hello_payload empty_cloud).2 !! "15550101"
    = objects empty_cloud !! "15550101".
Proof.
  assert (∀ ct, first_contact hello_payload = Some ct → wa_id ct ≠ "15550101") as H.
  { intros ct [= <-]. discriminate. }
  split; [exact H|].
  exact (post_webhook_touches_one_object sunny hello_payload empty_cloud "15550101" H).
Defined.


(** X9. An accepted text message through the dispatcher: the generator
    sees only the history stored under the sender's own key; that history
    gets the user message and the assistant answer (under the window); the
    answer is sent to that same key; and the webhook answers 200 when the
    send succeeded and 500 with "Failed to send WhatsApp message" when it
    did not, whatever the generator did. *)
Theorem post_webhook_text P p ct m body c :
  accepted_text p ct m body →
  let h := history_of c (wa_id ct) in
  let u := {| role := user; content := body; timestamp := inbound_timestamp P m |} in
  let reply := generated P (h ++ [u]) in
  let a := {| role := assistant; content := reply; timestamp := now P |} in
  ∃ c',
    post_webhook P p c
    = (if delivered P reply (wa_id ct) then processed
       else processing_failed "Failed to send WhatsApp message", c')
    ∧ history_of c' (wa_id ct) = slice_last MAX_MESSAGES (h ++ [u; a])
    ∧ outbound c' = outbound c ++ [CallMarkRead (wm_id m) true;
                                   CallGenerate SYSTEM_PROMPT (core <$> (h ++ [u]));
                                   CallSendText reply (wa_id ct)].
Proof.
  intros (Hc & Hm & Ht & Hb & Hn) h u reply a. subst h u reply a.
  rewrite post_webhook_run, (has_arrays_first p ct m), Hc, Hm by done. simpl.
  rewrite stub_processMessage_cloud.
  rewrite (processMessage_text P p ct m body) by done. cbv zeta. simpl.
  change (history {| storage := objects c !!! wa_id ct; calls := outbound c |})
    with (history_of c (wa_id ct)).
  destruct (delivered P _ (wa_id ct)); simpl; eexists; (split_and!; [done| |done]);
    unfold history_of; simpl; rewrite lookup_total_insert_eq;
    unfold stored_history; by rewrite lookup_insert_eq.
Qed.

Lemma post_webhook_text_witness :
  accepted_text hello_payload alice hello "Hello"
  ∧ ∃ c',
      post_webhook sunny hello_payload empty_cloud = (processed, c')
      ∧ history_of c' "15550100"
        = [ {| role := user; content := "Hello"; timestamp := DateMs 1700000000000 |};
            {| role := assistant; content := "Hi! How can I help?";
               timestamp := DateMs 1700000001000 |} ]
      ∧ outbound c'
        = [ CallMarkRead "wamid.1" true;
            CallGenerate SYSTEM_PROMPT [ {| core_role := user; core_content := "Hello" |} ];
            CallSendText "Hi! How can I help?" "15550100" ].
Proof.
  split; [exact hello_accepted|].
  exact (post_webhook_text sunny hello_payload alice hello "Hello" empty_cloud
           hello_accepted).
Defined.

(** X10. A message that is not a text makes the webhook answer 500
    "Processing failed", also when the notice was delivered; no history
    of any key changes and the only outbound calls are the read receipt
    and the notice to the sender. *)
Theorem post_webhook_non_text P p ct m c :
  first_contact p = Some ct → first_message p = Some m → wm_type m ≠ text →
  ∃ e c',
    post_webhook P p c = (processing_failed e, c')
    ∧ (∀ key, history_of c' key = history_of c key)
    ∧ outbound c' = outbound c ++ [CallMarkRead (wm_id m) true;
                                   CallSendText TEXT_ONLY (wa_id ct)].
Proof.
  intros Hc Hm Ht.
  rewrite post_webhook_run, (has_arrays_first p ct m), Hc, Hm by done. simpl.
  rewrite stub_processMessage_cloud.
  rewrite (processMessage_unsupported P p ct m _ Hc Hm (unsupported_non_text m Ht)).
  cbv zeta. simpl. eexists _, _. split_and!; [done| |done].
  apply history_of_same_object.
Qed.

Lemma post_webhook_non_text_witness :
  (first_contact photo_payload = Some alice ∧ first_message photo_payload = Some photo
   ∧ wm_type photo ≠ text)
  ∧ ∃ e c',
      post_webhook sunny photo_payload empty_cloud = (processing_failed e, c')
      ∧ (∀ key, history_of c' key = history_of empty_cloud key)
      ∧ outbound c' = outbound empty_cloud ++ [CallMarkRead (wm_id photo) true;
                                               CallSendText TEXT_ONLY (wa_id alice)].
Proof.
  assert (wm_type photo ≠ text) as H by discriminate.
  split; [by split_and!|].
  exact (post_webhook_non_text sunny photo_payload alice photo empty_cloud
           eq_refl eq_refl H).
Defined.

(** X11. Webhook verification: [GET /webhook] answers 200 exactly when
    [hub.mode] is "subscribe" and [hub.verify_token] equals the configured
    token and is not empty; so with an empty configured token nothing
    verifies.  A verified request gets the challenge back verbatim (the
    empty text when there is none); any other request gets 403 with the
    error "Verification failed". *)
Theorem get_webhook_verification env query :
  (reply_status (get_webhook env query) = 200%Z
   ↔ query !! "hub.mode" = Some "subscribe"
     ∧ query !! "hub.verify_token" = Some (WEBHOOK_VERIFY_TOKEN env)
     ∧ WEBHOOK_VERIFY_TOKEN env ≠ "")
  ∧ (get_webhook env query = TextReply 200 (default "" (query !! "hub.challenge"))
     ∨ get_webhook env query
       = Json {| status := 403; reply_message := None;
                 reply_error := Some "Verification failed" |}).
Proof.
  unfold get_webhook. cbv zeta.
  destruct (bool_decide_reflect (query !! "hub.mode" = Some "subscribe")) as [Hm|Hm];
    simpl; [|split; [split; [done | tauto] | by right]].
  destruct (query !! "hub.verify_token") as [t|]; simpl;
    [|split; [split; [done | by intros (_ & ? & _)] | by right]].
  destruct (bool_decide_reflect (Some t = Some (WEBHOOK_VERIFY_TOKEN env))) as [[= Ht]|Ht];
    rewrite ?andb_false_r; simpl;
    [|split; [split; [done | by intros (_ & ? & _)] | by right]].
  subst t. destruct (truthy (WEBHOOK_VERIFY_TOKEN env)) eqn:Hs; simpl.
  - split; [split; [intros _; split_and!; [done|done|by apply truthy_nonempty] | done]|].
    left. f_equal. by destruct (query !! "hub.challenge") as [[|]|].
  - split; [|by right]. split; [done|]. intros (_ & _ & Hne).
    apply truthy_nonempty in Hne. congruence.
Qed.

Example verification_echoes_challenge :
  get_webhook secrets
    {[ "hub.mode" := "subscribe"; "hub.verify_token" := "my_secret_token_12345";
       "hub.challenge" := "1158201444" ]}
  = TextReply 200 "1158201444".
Proof. by vm_compute. Qed.

Example empty_token_is_refused :
  reply_status
    (get_webhook no_secret {[ "hub.mode" := "subscribe"; "hub.verify_token" := "" ]})
  = 403%Z.
Proof. by vm_compute. Qed.

(** ** Sequences of operations *)

(** X12. No deduplication: an accepted text event delivered a second time
    is processed again.  After the two runs the history is the window
    over the old history followed by two exchanges with the same user
    message, and two replies have been sent, the second one generated
    with the first exchange in its context. *)
Theorem repeated_event_is_processed_again P p ct m body s :
  accepted_text p ct m body →
  let u := {| role := user; content := body; timestamp := inbound_timestamp P m |} in
  let s1 := (processMessage P p s).2 in
  let s2 := (processMessage P p s1).2 in
  let a1 := {| role := assistant; content := generated P (history s ++ [u]);
               timestamp := now P |} in
  let a2 := {| role := assistant; content := generated P (history s1 ++ [u]);
               timestamp := now P |} in
  history s1 = slice_last MAX_MESSAGES (history s ++ [u; a1])
  ∧ history s2 = slice_last MAX_MESSAGES (history s ++ [u; a1; u; a2])
  ∧ calls s2 = calls s ++ [CallMarkRead (wm_id m) true;
                           CallGenerate SYSTEM_PROMPT (core <$> (history s ++ [u]));
                           CallSendText (content a1) (wa_id ct);
                           CallMarkRead (wm_id m) true;
                           CallGenerate SYSTEM_PROMPT (core <$> (history s1 ++ [u]));
                           CallSendText (content a2) (wa_id ct)].
Proof.
  intros (Hc & Hm & Ht & Hb & Hn) u s1 s2 a1 a2.
  assert (history s1 = slice_last MAX_MESSAGES (history s ++ [u; a1])) as H1.
  { unfold s1. rewrite (processMessage_text P p ct m body s) by done.
    cbv zeta. cbn [snd]. by rewrite history_put. }
  split_and!; [done| |].
  - unfold s2. rewrite (processMessage_text P p ct m body s1) by done.
    cbv zeta. cbn [snd]. rewrite history_put. fold u a2.
    rewrite H1, slice_last_idem_app. by rewrite <- app_assoc.
  - unfold s2. rewrite (processMessage_text P p ct m body s1) by done.
    cbv zeta. cbn [snd calls]. fold u.
    unfold s1 at 1. rewrite (processMessage_text P p ct m body s) by done.
    cbv zeta. cbn [snd calls]. by rewrite <- app_assoc.
Qed.

Lemma repeated_event_is_processed_again_witness :
  accepted_text hello_payload alice hello "Hello"
  ∧ let u := {| role := user; content := "Hello"; timestamp := DateMs 1700000000000 |} in
    let a := {| role := assistant; content := "Hi! How can I help?";
                timestamp := DateMs 1700000001000 |} in
    let s1 := (processMessage sunny hello_payload fresh).2 in
    let s2 := (processMessage sunny hello_payload s1).2 in
    history s1 = [u; a] ∧ history s2 = [u; a; u; a]
    ∧ calls s2
      = [CallMarkRead "wamid.1" true;
         CallGenerate SYSTEM_PROMPT (core <$> [u]);
         CallSendText "Hi! How can I help?" "15550100";
         CallMarkRead "wamid.1" true;
         CallGenerate SYSTEM_PROMPT (core <$> [u; a; u]);
         CallSendText "Hi! How can I help?" "15550100"].
Proof.
  split; [exact hello_accepted|].
  exact (repeated_event_is_processed_again sunny hello_payload alice hello "Hello"
           fresh hello_accepted).
Defined.

(** X13. A reset forgets the context: when [clearHistory] is followed by
    an accepted text message, the generator is called with that message
    alone, and the history afterwards is exactly the new exchange,
    whatever was stored before. *)
Theorem clearHistory_resets_context P p ct m body s :
  accepted_text p ct m body →
  let u := {| role := user; content := body; timestamp := inbound_timestamp P m |} in
  let reply := generated P [u] in
  let a := {| role := assistant; content := reply; timestamp := now P |} in
  ∃ r s',
    (clearHistory ;; processMessage P p) s = (Normal r, s')
    ∧ history s' = [u; a]
    ∧ calls s' = calls s ++ [CallMarkRead (wm_id m) true;
                             CallGenerate SYSTEM_PROMPT [core u];
                             CallSendText reply (wa_id ct)].
Proof.
  intros (Hc & Hm & Ht & Hb & Hn) u reply a. subst u reply a.
  erewrite bind_normal by reflexivity.
  rewrite (processMessage_text P p ct m body) by done. cbv zeta.
  assert (history {| storage := delete "messages" (storage s); calls := calls s |} = [])
    as ->.
  { unfold history, stored_history; simpl. by rewrite lookup_delete_eq. }
  eexists _, _. split_and!; [done| |done].
  by rewrite history_put.
Qed.

Lemma clearHistory_resets_context_witness :
  accepted_text hello_payload alice hello "Hello"
  ∧ ∃ r s',
      (clearHistory ;; processMessage sunny hello_payload) full = (Normal r, s')
      ∧ history s'
        = [ {| role := user; content := "Hello"; timestamp := DateMs 1700000000000 |};
            {| role := assistant; content := "Hi! How can I help?";
               timestamp := DateMs 1700000001000 |} ]
      ∧ calls s'
        = [ CallMarkRead "wamid.1" true;
            CallGenerate SYSTEM_PROMPT [ {| core_role := user; core_content := "Hello" |} ];
            CallSendText "Hi! How can I help?" "15550100" ].
Proof.
  split; [exact hello_accepted|].
  exact (clearHistory_resets_context sunny hello_payload alice hello "Hello" full
           hello_accepted).
Defined.

(** X14. Every event that the dispatcher hands to an actor passes the
    actor's own validation: a request either leaves the cloud as it is, or
    extends the outbound calls, beginning with the read receipt for the
    payload's first message. *)
Theorem forwarded_event_gets_read_receipt P p c :
  (post_webhook P p c).2 = c
  ∨ ∃ m rest,
      first_message p = Some m
      ∧ outbound (post_webhook P p c).2 = outbound c ++ CallMarkRead (wm_id m) true :: rest.
Proof.
  rewrite post_webhook_run.
  destruct (has_arrays p) eqn:Ha; simpl; [|by left].
  destruct (first_contact p) as [ct|] eqn:Hc; [|by left].
  destruct (first_message p) as [m|] eqn:Hm; [|by left].
  right. exists m.
  assert (∃ rest, outbound (stub_processMessage P (wa_id ct) p c).2
                  = outbound c ++ CallMarkRead (wm_id m) true :: rest) as [rest Hrest].
  { rewrite stub_processMessage_cloud. cbv zeta. cbn [snd outbound].
    rewrite processMessage_outcome. unfold outcome. rewrite Ha, Hc, Hm. simpl.
    destruct (unsupported m); simpl; [|by eexists].
    rewrite <- app_assoc. by eexists. }
  exists rest. split; [done|]. rewrite <- Hrest.
  destruct (stub_processMessage P (wa_id ct) p c) as [[r|e] c']; [|done].
  by destruct (success r).
Qed.

(** X15. Appending a sequence to a history that is already there: from
    every state whose history respects the bound, and from every state at
    all when at least one message is appended, appending [ms] one by one
    leaves the last 20 entries of the old history followed by [ms]. *)
Theorem addMessages_extends_history ms s :
  ms ≠ [] ∨ length (history s) ≤ 20 →
  ∃ s',
    addMessages ms s = (Normal tt, s')
    ∧ history s' = drop (length (history s ++ ms) - 20) (history s ++ ms)
    ∧ calls s' = calls s.
Proof.
  intros [Hms | Hlen]; [|by apply addMessages_run].
  destruct ms as [|m ms]; [done|].
  destruct (addMessages_run ms (addMessage m s).2 (addMessage_bounded m s))
    as (s' & Hrun & Hh & Hc).
  exists s'. split_and!.
  - simpl. unfold bind at 1. rewrite addMessage_run in *. exact Hrun.
  - rewrite Hh, addMessage_run. cbn [snd]. rewrite history_put, window_slice.
    rewrite slice_last_idem_app, <- app_assoc. done.
  - by rewrite Hc, addMessage_run.
Qed.

Lemma addMessages_extends_history_witness :
  ([numbered user 1; numbered assistant 2] ≠ [] ∨ length (history full) ≤ 20)
  ∧ ∃ s',
      addMessages [numbered user 1; numbered assistant 2] full = (Normal tt, s')
      ∧ history s'
        = drop (length (history full ++ [numbered user 1; numbered assistant 2]) - 20)
            (history full ++ [numbered user 1; numbered assistant 2])
      ∧ calls s' = calls full.
Proof.
  assert ([numbered user 1; numbered assistant 2] ≠ []) as H by discriminate.
  split; [by left|].
  exact (addMessages_extends_history [numbered user 1; numbered assistant 2] full
           (or_introl H)).
Defined.
